(* Shallow embedding of src/src/main.rs (fanotify_demo, pure unsafe variant):
   the mark registration with its fallback, the blocking read loop and the
   in-buffer record parser with its per-record decoding. *)

From Stdlib Require Import ZArith List String Bool Lia.
Import ListNotations.
Open Scope string_scope.
Open Scope Z_scope.
Open Scope list_scope.

(* ------------------------------------------------------------------ *)
(** * Constants (main.rs lines 5-16, 321) *)

Definition FAN_CLASS_NOTIF : Z := 0.
Definition FAN_CLOEXEC : Z := 0x00000001.

Definition FAN_OPEN : Z := 0x00000001.
Definition FAN_CLOSE_WRITE : Z := 0x00000008.
Definition FAN_MODIFY : Z := 0x00000002.
Definition FAN_ATTRIB : Z := 0x00000004.

Definition FAN_MARK_ADD : Z := 0x00000001.
Definition FAN_MARK_ONLYDIR : Z := 0x00000008.

Definition AT_FDCWD : Z := -100.

(** Linux x86_64 errno values matched by the read loop. *)
Definition EINTR : Z := 4.
Definition EAGAIN : Z := 11.

Definition BUF_SIZE : nat := 4096.

(** [mem::size_of::<FanotifyEventMetadata>()]: the [#[repr(C)]] struct
    u32, u8, u8, u16, u64, i32, i32 has no padding and size 24. *)
Definition METADATA_SIZE : nat := 24.

(* ------------------------------------------------------------------ *)
(** * The wire record [FanotifyEventMetadata] (lines 19-29) *)

Record FanotifyEventMetadata := {
  event_len : Z;      (* u32 at offset 0 *)
  vers : Z;           (* u8  at offset 4 *)
  reserved : Z;       (* u8  at offset 5 *)
  metadata_len : Z;   (* u16 at offset 6 *)
  mask : Z;           (* u64 at offset 8 *)
  fd : Z;             (* i32 at offset 16 *)
  pid : Z             (* i32 at offset 20 *)
}.

(** A byte of the buffer; the buffer is a list of bytes in 0..255. *)
Definition byte_at (buf : list Z) (i : nat) : Z := nth i buf 0.

(** Little-endian unsigned integer of [w] bytes starting at [off]. *)
Fixpoint le_uint (buf : list Z) (off : nat) (w : nat) : Z :=
  match w with
  | O => 0
  | S w' => byte_at buf off + 256 * le_uint buf (S off) w'
  end.

(** Two's complement reinterpretation of a 32-bit unsigned value as i32. *)
Definition to_i32 (u : Z) : Z := if u <? 2 ^ 31 then u else u - 2 ^ 32.

(** Arithmetic on [i32] as a release build performs it: wrap-around modulo
    [2^32] ([event_count += 1], line 367). *)
Definition wrap_i32 (x : Z) : Z := to_i32 (x mod 2 ^ 32).

(** The struct overlay [&*(buffer.as_ptr().add(offset) as *const
    FanotifyEventMetadata)] (lines 363-365), read field by field. *)
Definition read_metadata (buf : list Z) (off : nat) : FanotifyEventMetadata := {|
  event_len := le_uint buf off 4;
  vers := byte_at buf (off + 4);
  reserved := byte_at buf (off + 5);
  metadata_len := le_uint buf (off + 6) 2;
  mask := le_uint buf (off + 8) 8;
  fd := to_i32 (le_uint buf (off + 16) 4);
  pid := to_i32 (le_uint buf (off + 20) 4)
|}.

(** Encoding of a record, used to build concrete buffers. *)
Fixpoint le_bytes (v : Z) (w : nat) : list Z :=
  match w with
  | O => []
  | S w' => (v mod 256) :: le_bytes (v / 256) w'
  end.

Definition encode_metadata (m : FanotifyEventMetadata) : list Z :=
  le_bytes (event_len m) 4 ++ [vers m; reserved m] ++ le_bytes (metadata_len m) 2
  ++ le_bytes (mask m) 8 ++ le_bytes (fd m mod 2 ^ 32) 4 ++ le_bytes (pid m mod 2 ^ 32) 4.

(* ------------------------------------------------------------------ *)
(** * Decoding of one record (lines 367-460) *)

(** The entries pushed into [event_types] (lines 404-431). *)
Inductive EventKind := ATTRIB_METADATA | OPEN | MODIFY | CLOSE_WRITE.

Definition kind_eqb (a b : EventKind) : bool :=
  match a, b with
  | ATTRIB_METADATA, ATTRIB_METADATA | OPEN, OPEN
  | MODIFY, MODIFY | CLOSE_WRITE, CLOSE_WRITE => true
  | _, _ => false
  end.

Definition kind_bit (k : EventKind) : Z :=
  match k with
  | ATTRIB_METADATA => FAN_ATTRIB
  | OPEN => FAN_OPEN
  | MODIFY => FAN_MODIFY
  | CLOSE_WRITE => FAN_CLOSE_WRITE
  end.

(** [event_types], built by four independent [if event.mask & BIT != 0]
    tests in this order (lines 404-431). *)
Definition event_types_of (m : Z) : list EventKind :=
  (if Z.land m FAN_ATTRIB =? 0 then [] else [ATTRIB_METADATA]) ++
  (if Z.land m FAN_OPEN =? 0 then [] else [OPEN]) ++
  (if Z.land m FAN_MODIFY =? 0 then [] else [MODIFY]) ++
  (if Z.land m FAN_CLOSE_WRITE =? 0 then [] else [CLOSE_WRITE]).

(** [path_info] (lines 382-400): ["path=<p>"], ["fd=<n>"] or ["path=unknown"]. *)
Inductive PathInfo := PathResolved (p : string) | PathFd (n : Z) | PathUnknown.

(** The descriptor table of the process as seen by
    [fs::read_link("/proc/self/fd/<n>")]: [Some p] when the link resolves to
    [p], [None] when [read_link] fails (closed descriptor or other error). *)
Definition FdTable := Z -> option string.

(** [libc::close(n)]: the descriptor no longer resolves. *)
Definition fd_close (t : FdTable) (n : Z) : FdTable :=
  fun x => if Z.eqb x n then None else t x.

Definition path_info_of (t : FdTable) (n : Z) : PathInfo :=
  if 0 <=? n then
    match t n with
    | Some p => PathResolved p
    | None => PathFd n
    end
  else PathUnknown.

(** What one iteration of the record loop reports for a record. *)
Record Event := {
  ev_count : Z;               (* event_count after the increment *)
  ev_record : FanotifyEventMetadata;
  ev_path : PathInfo;
  ev_types : list EventKind
}.

(** Effects of the process relevant to the claims. *)
Record PState := {
  ps_fds : FdTable;           (* descriptor table *)
  ps_closed : list Z;         (* arguments of [libc::close] calls, in order *)
  ps_events : list Event;     (* records reported, in order *)
  ps_count : Z                (* event_count, an i32 *)
}.

(** One pass of the body of [while offset < bytes_read as usize] for the
    record at [off] whose header lies in the bytes read (lines 363-465):
    increments [event_count], resolves the path through the descriptor table,
    builds [event_types], closes [event.fd] when it is non-negative. The
    [fs::metadata] status print of lines 442-454 has no effect on this state. *)
Definition decode_record (buf : list Z) (off : nat) (s : PState) : PState :=
  let ev := read_metadata buf off in
  let c := wrap_i32 (ps_count s + 1) in
  let info := path_info_of (ps_fds s) (fd ev) in
  let tys := event_types_of (mask ev) in
  let e := {| ev_count := c; ev_record := ev; ev_path := info; ev_types := tys |} in
  if 0 <=? fd ev then
    {| ps_fds := fd_close (ps_fds s) (fd ev);
       ps_closed := ps_closed s ++ [fd ev];
       ps_events := ps_events s ++ [e];
       ps_count := c |}
  else
    {| ps_fds := ps_fds s;
       ps_closed := ps_closed s;
       ps_events := ps_events s ++ [e];
       ps_count := c |}.

Inductive LoopStep := Exit | Next (off : nat) (s : PState).

(** One iteration of the record loop (lines 357-466): leave when
    [offset >= bytes_read], [break] when the header does not fit in the bytes
    read, otherwise decode and advance by [event.event_len as usize]. *)
Definition record_step (buf : list Z) (n : nat) (off : nat) (s : PState) : LoopStep :=
  if Nat.ltb off n then
    if Nat.ltb n (off + METADATA_SIZE) then Exit
    else Next (off + Z.to_nat (event_len (read_metadata buf off))) (decode_record buf off s)
  else Exit.

(** The record loop run for at most [fuel] iterations; [None] when the loop
    has not left after [fuel] iterations. *)
Fixpoint record_loop (fuel : nat) (buf : list Z) (n : nat) (off : nat) (s : PState)
  : option PState :=
  match fuel with
  | O => None
  | S f =>
      match record_step buf n off s with
      | Exit => Some s
      | Next off' s' => record_loop f buf n off' s'
      end
  end.

(* ------------------------------------------------------------------ *)
(** * The read loop (lines 317-473) *)

(** Outcome of one [libc::read(fanotify_fd, buffer, BUF_SIZE)]: [-1] with an
    errno, or the bytes written at the start of [buffer]. *)
Inductive ReadResult := ReadErr (errno : Z) | ReadData (data : list Z).

(** Return value of [main]: [Ok(())] or an [Err] carrying the errno. *)
Inductive MainResult := MainOk | MainErr (errno : Z).

Record LState := {
  ls_buffer : list Z;         (* [buffer], kept across reads *)
  ls_proc : PState;
  ls_stderr : list Z          (* errnos printed by line 342 *)
}.

(** [read] overwrites the first bytes of [buffer]; the rest keeps old bytes. *)
Definition fill_buffer (old data : list Z) : list Z :=
  data ++ skipn (List.length data) old.

(** The [loop] of lines 324-467 followed by the clean-up of lines 469-473,
    driven by the successive read outcomes [reads]. [None]: still running
    when [reads] is exhausted (blocked in [read]) or a record loop did not
    leave within [fuel] iterations. *)
Fixpoint read_loop (fuel : nat) (ffd : Z) (reads : list ReadResult) (st : LState)
  : option (LState * MainResult) :=
  match reads with
  | [] => None
  | ReadErr e :: rest =>
      if Z.eqb e EINTR then read_loop fuel ffd rest st
      else if Z.eqb e EAGAIN then read_loop fuel ffd rest st
      else
        let p := ls_proc st in
        Some ({| ls_buffer := ls_buffer st;
                 ls_proc := {| ps_fds := fd_close (ps_fds p) ffd;
                               ps_closed := ps_closed p ++ [ffd];
                               ps_events := ps_events p;
                               ps_count := ps_count p |};
                 ls_stderr := ls_stderr st ++ [e] |}, MainOk)
  | ReadData data :: rest =>
      if Nat.eqb (List.length data) 0 then read_loop fuel ffd rest st
      else
        let buf := fill_buffer (ls_buffer st) data in
        match record_loop fuel buf (List.length data) 0 (ls_proc st) with
        | None => None
        | Some p =>
            read_loop fuel ffd rest
              {| ls_buffer := buf; ls_proc := p; ls_stderr := ls_stderr st |}
        end
  end.

(* ------------------------------------------------------------------ *)
(** * Start-up: kernel probe and mark registration (lines 50-66, 160-260) *)

Definition test_file_path : string := "/tmp/fanotify_test_file.txt".

Definition mask_metadata_focused : Z := Z.lor (Z.lor FAN_ATTRIB FAN_OPEN) FAN_CLOSE_WRITE.
Definition mask_fallback : Z := Z.lor (Z.lor FAN_OPEN FAN_MODIFY) FAN_CLOSE_WRITE.

(** Outcome of [fanotify_mark]: [0], or [-1] with an errno. *)
Inductive MarkResult := MarkOk | MarkErr (errno : Z).

(** System calls issued by the start-up code after [fanotify_init]. *)
Inductive Syscall :=
  | SysMark (flags mask dirfd : Z) (path : string)
  | SysClose (n : Z).


Record SetupEnv := {
  proc_version : option string;   (* [read_to_string("/proc/version")] *)
  fanotify_sysctl : bool;         (* [metadata("/proc/sys/fs/fanotify")] is [Ok] *)
  fanotify_mark : Z -> Z -> Z -> string -> MarkResult  (* flags, mask, dirfd, path *)
}.


(** How start-up ends: the event loop is entered with [actual_mask], or
    [main] returns [Err] with the errno of the last failed mark. *)
Inductive SetupResult := Monitoring (actual_mask : Z) | SetupFailed (errno : Z).

(** Lines 187-260: the metadata-focused mark, then on failure the fallback
    mark, then on its success the directory-level [FAN_ATTRIB] mark. *)
Definition register (env : SetupEnv) (fanotify_fd : Z) : list Syscall * SetupResult :=
  let mark := fanotify_mark env in
  let m1 := SysMark FAN_MARK_ADD mask_metadata_focused AT_FDCWD test_file_path in
  match mark FAN_MARK_ADD mask_metadata_focused AT_FDCWD test_file_path with
  | MarkOk => ([m1], Monitoring mask_metadata_focused)
  | MarkErr _ =>
      let m2 := SysMark FAN_MARK_ADD mask_fallback AT_FDCWD test_file_path in
      match mark FAN_MARK_ADD mask_fallback AT_FDCWD test_file_path with
      | MarkErr errno => ([m1; m2; SysClose fanotify_fd], SetupFailed errno)
      | MarkOk =>
          let flags := Z.lor FAN_MARK_ADD FAN_MARK_ONLYDIR in
          let m3 := SysMark flags FAN_ATTRIB AT_FDCWD "/tmp" in
          match mark flags FAN_ATTRIB AT_FDCWD "/tmp" with
          | MarkOk => ([m1; m2; m3], Monitoring (Z.lor mask_fallback FAN_ATTRIB))
          | MarkErr _ => ([m1; m2; m3], Monitoring mask_fallback)
          end
      end
  end.


(* ------------------------------------------------------------------ *)
(** * The whole of [main] (lines 88-474) *)

(** The process state at the start of the event loop: [event_count = 0]. *)
Definition init_pstate (t : FdTable) : PState :=
  {| ps_fds := t; ps_closed := []; ps_events := []; ps_count := 0 |}.

(** Outcome of [fanotify_init(FAN_CLASS_NOTIF | FAN_CLOEXEC, O_RDONLY)]. *)
Inductive InitResult := InitOk (fanotify_fd : Z) | InitErr (errno : Z).

Record MainEnv := {
  init_result : InitResult;
  write_error : option Z;   (* [fs::write(test_file_path, ..)]: [Some] error code on failure *)
  setup_env : SetupEnv;
  start_fds : FdTable       (* descriptor table when the event loop starts *)
}.

(** The state the event loop starts from (lines 317-322). *)
Definition loop_start (t : FdTable) : LState :=
  {| ls_buffer := repeat 0 BUF_SIZE; ls_proc := init_pstate t; ls_stderr := [] |}.

(** [main]: [fanotify_init] (lines 111-131), creation of the test file
    (lines 137-158), the mark registration (lines 187-260), then the event loop
    and its clean-up (lines 317-473). Result: the start-up system calls, the
    final loop state when the loop was entered, and the value [main] returns;
    [None] when the loop is still running. *)
Definition main_run (fuel : nat) (menv : MainEnv) (reads : list ReadResult)
  : option (list Syscall * option LState * MainResult) :=
  match init_result menv with
  | InitErr e => Some ([], None, MainErr e)
  | InitOk ffd =>
      match write_error menv with
      | Some e => Some ([], None, MainErr e)
      | None =>
          let (calls, r) := register (setup_env menv) ffd in
          match r with
          | SetupFailed e => Some (calls, None, MainErr e)
          | Monitoring _ =>
              match read_loop fuel ffd reads (loop_start (start_fds menv)) with
              | None => None
              | Some (st, res) => Some (calls, Some st, res)
              end
          end
      end
  end.

(** The observable part of an event-loop outcome: everything but the buffer. *)
Definition strip_buffer (o : option (LState * MainResult)) :=
  option_map (fun r => (ls_proc (fst r), ls_stderr (fst r), snd r)) o.

(** The errnos after which the read loop continues (lines 332-340). *)
Definition transient_errno (e : Z) : bool := Z.eqb e EINTR || Z.eqb e EAGAIN.

(** The events appended after [c] events are numbered [c+1, c+2, ...],
    each wrapped to [i32]. *)
Definition numbered_from (c : Z) (new : list Event) : Prop :=
  map ev_count new = map (fun i => wrap_i32 (c + Z.of_nat i)) (seq 1 (List.length new)).

(* ------------------------------------------------------------------ *)
(** * Well-formed records and buffers *)

(** Field ranges of a record as the kernel writes it: each value fits its
    field's width and signedness. *)
Definition wf_record (m : FanotifyEventMetadata) : bool :=
  (0 <=? event_len m) && (event_len m <? 2 ^ 32) &&
  (0 <=? vers m) && (vers m <? 256) &&
  (0 <=? reserved m) && (reserved m <? 256) &&
  (0 <=? metadata_len m) && (metadata_len m <? 2 ^ 16) &&
  (0 <=? mask m) && (mask m <? 2 ^ 64) &&
  (-2 ^ 31 <=? fd m) && (fd m <? 2 ^ 31) &&
  (-2 ^ 31 <=? pid m) && (pid m <? 2 ^ 31).

(** A record as the kernel frames it: the 24-byte header followed by
    [event_len - 24] bytes of additional information. *)
Definition frame_bytes (f : FanotifyEventMetadata * list Z) : list Z :=
  encode_metadata (fst f) ++ snd f.

Definition wf_frame (f : FanotifyEventMetadata * list Z) : bool :=
  wf_record (fst f) &&
  Z.eqb (event_len (fst f)) (Z.of_nat (METADATA_SIZE + List.length (snd f))).

(* ------------------------------------------------------------------ *)
(** * Concrete inputs *)

Definition empty_fds : FdTable := fun _ => None.

Definition rec_of (len m n p : Z) : FanotifyEventMetadata :=
  {| event_len := len; vers := 3; reserved := 0; metadata_len := 24;
     mask := m; fd := n; pid := p |}.

(** A descriptor table where only [n] is open, as a link to [p]. *)
Definition fds_one (n : Z) (p : string) : FdTable :=
  fun x => if Z.eqb x n then Some p else None.

(** A single record whose [event_len] is 0, smaller than the header. *)
Definition zero_len_buffer : list Z := encode_metadata (rec_of 0 FAN_OPEN 5 100).

(** A single record claiming 48 bytes of which only its 24-byte header was read. *)
Definition overlong_buffer : list Z := encode_metadata (rec_of 48 FAN_MODIFY (-1) 100).

Definition init_lstate : LState :=
  {| ls_buffer := repeat 0 BUF_SIZE; ls_proc := init_pstate empty_fds; ls_stderr := [] |}.

(** Errno values used in concrete runs. *)
Definition EPERM : Z := 1.
Definition EIO : Z := 5.
Definition EINVAL : Z := 22.

(** Values of [FAN_CREATE] and [FAN_DELETE] in the kernel's [linux/fanotify.h];
    main.rs declares neither. *)
Definition KERNEL_FAN_CREATE : Z := 0x00000100.
Definition KERNEL_FAN_DELETE : Z := 0x00000200.

(** A kernel answering the three possible marks of [register] with
    [r1], [r2], [r3]. *)
Definition env_of (r1 r2 r3 : MarkResult) (v : option string) : SetupEnv := {|
  proc_version := v;
  fanotify_sysctl := true;
  fanotify_mark := fun _ m _ _ =>
    if Z.eqb m mask_metadata_focused then r1
    else if Z.eqb m mask_fallback then r2 else r3
|}.

(** Two runs of [main]: the test file cannot be written; the first mark
    fails and the fallback mark is used. *)
Definition write_fails_menv : MainEnv := {|
  init_result := InitOk 3;
  write_error := Some EPERM;
  setup_env := env_of MarkOk MarkOk MarkOk None;
  start_fds := empty_fds
|}.

Definition fallback_menv : MainEnv := {|
  init_result := InitOk 3;
  write_error := None;
  setup_env := env_of (MarkErr EINVAL) MarkOk (MarkErr EINVAL) None;
  start_fds := fds_one 7 "/tmp/fanotify_test_file.txt"
|}.

Example read_encode_ex :
  read_metadata (encode_metadata (rec_of 24 10 (-1) 4242)) 0 = rec_of 24 10 (-1) 4242.
Proof. reflexivity. Qed.

Example two_records_ex :
  option_map (fun s => (ps_closed s, map ev_types (ps_events s)))
    (record_loop 10 (encode_metadata (rec_of 24 10 7 1) ++ encode_metadata (rec_of 24 1 8 1))
       48 0 (init_pstate empty_fds))
  = Some ([7; 8], [[MODIFY; CLOSE_WRITE]; [OPEN]]).
Proof. reflexivity. Qed.

(* ------------------------------------------------------------------ *)
(** * Helper lemmas: byte-level decoding *)

Lemma byte_at_shift (pre rest : list Z) (i : nat) :
  byte_at (pre ++ rest) (List.length pre + i) = byte_at rest i.
Proof. unfold byte_at. apply app_nth2_plus. Qed.

Lemma le_uint_shift (pre rest : list Z) (off w : nat) :
  le_uint (pre ++ rest) (List.length pre + off) w = le_uint rest off w.
Proof.
  revert off. induction w as [|w IH]; intros off; simpl; [reflexivity|].
  rewrite byte_at_shift. replace (S (List.length pre + off))%nat
    with (List.length pre + S off)%nat by lia.
  now rewrite IH.
Qed.

(** Reading a record at offset [length pre + off] of [pre ++ rest] reads the
    same bytes as at [off] of [rest]. *)
Lemma read_metadata_shift (pre rest : list Z) (off : nat) :
  read_metadata (pre ++ rest) (List.length pre + off) = read_metadata rest off.
Proof.
  unfold read_metadata.
  rewrite <- !Nat.add_assoc.
  now rewrite !le_uint_shift, !byte_at_shift.
Qed.

Lemma le_bytes_length (v : Z) (w : nat) : List.length (le_bytes v w) = w.
Proof. revert v. induction w; intros v; simpl; auto. Qed.

Lemma le_uint_le_bytes (v : Z) (w : nat) (rest : list Z) :
  0 <= v -> le_uint (le_bytes v w ++ rest) 0 w = v mod 256 ^ Z.of_nat w.
Proof.
  revert v. induction w as [|w IH]; intros v Hv.
  - simpl. now rewrite Z.mod_1_r.
  - pose proof (le_uint_shift [v mod 256] (app (le_bytes (v / 256) w) rest) 0 w) as H.
    cbn [le_bytes le_uint List.length app] in *. unfold byte_at at 1. cbn [nth].
    simpl Nat.add in H. rewrite H, IH by (apply Z.div_pos; lia).
    rewrite Nat2Z.inj_succ, Z.pow_succ_r by lia.
    rewrite Z.rem_mul_r by (try apply Z.pow_pos_nonneg; lia).
    reflexivity.
Qed.

Lemma le_uint_skip (pre rest : list Z) (k w : nat) :
  (List.length pre <= k)%nat ->
  le_uint (pre ++ rest) k w = le_uint rest (k - List.length pre) w.
Proof.
  intros Hk. replace k with (List.length pre + (k - List.length pre))%nat at 1 by lia.
  apply le_uint_shift.
Qed.

Lemma byte_at_skip (pre rest : list Z) (k : nat) :
  (List.length pre <= k)%nat ->
  byte_at (pre ++ rest) k = byte_at rest (k - List.length pre).
Proof.
  intros Hk. replace k with (List.length pre + (k - List.length pre))%nat at 1 by lia.
  apply byte_at_shift.
Qed.

Lemma to_i32_mod (v : Z) : -2 ^ 31 <= v < 2 ^ 31 -> to_i32 (v mod 2 ^ 32) = v.
Proof.
  intros Hv. unfold to_i32. destruct (Z.ltb_spec (v mod 2 ^ 32) (2 ^ 31)) as [H|H].
  - destruct (Z.leb_spec 0 v).
    + apply Z.mod_small; lia.
    + exfalso. rewrite <- (Z.mod_add v 1 (2 ^ 32)), Z.mod_small in H by lia. lia.
  - destruct (Z.leb_spec 0 v).
    + rewrite Z.mod_small in H by lia. lia.
    + rewrite <- (Z.mod_add v 1 (2 ^ 32)), Z.mod_small by lia. lia.
Qed.

Ltac skip_prefixes :=
  repeat (first
    [ rewrite le_uint_skip by (rewrite ?le_bytes_length; cbn [List.length]; lia)
    | rewrite byte_at_skip by (rewrite ?le_bytes_length; cbn [List.length]; lia) ];
    rewrite ?le_bytes_length; cbn [List.length Nat.add Nat.sub]).

Lemma read_encode_metadata (m : FanotifyEventMetadata) (rest : list Z) :
  wf_record m = true -> read_metadata (encode_metadata m ++ rest) 0 = m.
Proof.
  intros Hwf. unfold wf_record in Hwf.
  repeat rewrite andb_true_iff in Hwf. rewrite ?Z.leb_le, ?Z.ltb_lt in Hwf.
  destruct m as [l v r ml mk n p]; cbn [event_len vers reserved metadata_len mask fd pid] in *.
  unfold read_metadata, encode_metadata; cbn [event_len vers reserved metadata_len mask fd pid].
  rewrite <- !app_assoc.
  f_equal; skip_prefixes.
  - rewrite le_uint_le_bytes by lia. apply Z.mod_small. change (256 ^ Z.of_nat 4) with (2 ^ 32). lia.
  - rewrite le_uint_le_bytes by lia. apply Z.mod_small. change (256 ^ Z.of_nat 2) with (2 ^ 16). lia.
  - rewrite le_uint_le_bytes by lia. apply Z.mod_small. change (256 ^ Z.of_nat 8) with (2 ^ 64). lia.
  - rewrite le_uint_le_bytes by (apply Z.mod_pos_bound; lia).
    change (256 ^ Z.of_nat 4) with (2 ^ 32). rewrite Z.mod_mod by lia. apply to_i32_mod; lia.
  - rewrite le_uint_le_bytes by (apply Z.mod_pos_bound; lia).
    change (256 ^ Z.of_nat 4) with (2 ^ 32). rewrite Z.mod_mod by lia. apply to_i32_mod; lia.
Qed.

Lemma encode_metadata_length (m : FanotifyEventMetadata) :
  List.length (encode_metadata m) = METADATA_SIZE.
Proof.
  unfold encode_metadata. rewrite !length_app, !le_bytes_length. reflexivity.
Qed.

(* ------------------------------------------------------------------ *)
(** * Helper lemmas: the record loop *)

Lemma decode_record_shift (pre rest : list Z) (off : nat) (s : PState) :
  decode_record (pre ++ rest) (List.length pre + off) s = decode_record rest off s.
Proof. unfold decode_record. now rewrite read_metadata_shift. Qed.

Lemma record_step_shift (pre rest : list Z) (n off : nat) (s : PState) :
  record_step (pre ++ rest) (List.length pre + n) (List.length pre + off) s =
  match record_step rest n off s with
  | Exit => Exit
  | Next o s' => Next (List.length pre + o) s'
  end.
Proof.
  unfold record_step. rewrite read_metadata_shift, decode_record_shift.
  destruct (Nat.ltb_spec off n), (Nat.ltb_spec (List.length pre + off) (List.length pre + n));
    try lia.
  - destruct (Nat.ltb_spec n (off + METADATA_SIZE)),
      (Nat.ltb_spec (List.length pre + n) (List.length pre + off + METADATA_SIZE)); try lia.
    + reflexivity.
    + now rewrite Nat.add_assoc.
  - reflexivity.
Qed.

Lemma record_loop_shift (fuel : nat) (pre rest : list Z) (n off : nat) (s : PState) :
  record_loop fuel (pre ++ rest) (List.length pre + n) (List.length pre + off) s =
  record_loop fuel rest n off s.
Proof.
  revert off s. induction fuel as [|fuel IH]; intros off s; [reflexivity|].
  cbn [record_loop]. rewrite record_step_shift.
  destruct (record_step rest n off s); [reflexivity|apply IH].
Qed.

Lemma record_loop_S (fuel : nat) (buf : list Z) (n off : nat) (s : PState) :
  record_loop (S fuel) buf n off s =
  match record_step buf n off s with
  | Exit => Some s
  | Next off' s' => record_loop fuel buf n off' s'
  end.
Proof. reflexivity. Qed.

Lemma record_loop_frames (frames : list (FanotifyEventMetadata * list Z)) (junk : list Z)
  (s : PState) :
  forallb wf_frame frames = true ->
  exists s',
    record_loop (S (List.length frames)) (List.concat (map frame_bytes frames) ++ junk)
      (List.length (List.concat (map frame_bytes frames))) 0 s = Some s' /\
    map ev_record (ps_events s') = map ev_record (ps_events s) ++ map fst frames.
Proof.
  revert s. induction frames as [|[m p] fs IH]; intros s Hwf.
  - exists s. split; [reflexivity|]. cbn. now rewrite app_nil_r.
  - cbn [forallb] in Hwf. apply andb_prop in Hwf as [Hf Hfs].
    unfold wf_frame in Hf; cbn [fst snd] in Hf. apply andb_prop in Hf as [Hm Hlen].
    apply Z.eqb_eq in Hlen.
    set (F := frame_bytes (m, p)).
    set (B := List.concat (map frame_bytes fs)).
    assert (HF : List.length F = (METADATA_SIZE + List.length p)%nat).
    { unfold F, frame_bytes. cbn [fst snd]. now rewrite length_app, encode_metadata_length. }
    assert (Hread : read_metadata (F ++ B ++ junk) 0 = m).
    { unfold F, frame_bytes. cbn [fst snd]. rewrite <- app_assoc. now apply read_encode_metadata. }
    change (List.concat (map frame_bytes ((m, p) :: fs))) with (F ++ B).
    rewrite <- app_assoc, length_app.
    cbn [List.length]. rewrite record_loop_S. unfold record_step. rewrite Hread, Hlen, Nat2Z.id.
    destruct (Nat.ltb_spec 0 (List.length F + List.length B)); [|unfold METADATA_SIZE in *; lia].
    destruct (Nat.ltb_spec (List.length F + List.length B) (0 + METADATA_SIZE)); [unfold METADATA_SIZE in *; lia|].
    replace (0 + (METADATA_SIZE + List.length p))%nat with (List.length F + 0)%nat by lia.
    rewrite record_loop_shift.
    destruct (IH (decode_record (F ++ B ++ junk) 0 s) Hfs) as [s' [Hrun Hev]].
    exists s'. split; [exact Hrun|].
    rewrite Hev. unfold decode_record. rewrite Hread.
    destruct (0 <=? fd m); cbn [ps_events]; rewrite map_app; cbn; now rewrite <- app_assoc.
Qed.

Lemma zero_len_read (junk : list Z) :
  read_metadata (zero_len_buffer ++ junk) 0 = rec_of 0 FAN_OPEN 5 100.
Proof. apply read_encode_metadata. reflexivity. Qed.

Lemma record_loop_zero_len (fuel : nat) (junk : list Z) (s : PState) :
  record_loop fuel (zero_len_buffer ++ junk) 24 0 s = None.
Proof.
  revert s. induction fuel as [|fuel IH]; intros s; [reflexivity|].
  rewrite record_loop_S. unfold record_step. rewrite zero_len_read.
  cbn -[decode_record zero_len_buffer app]. apply IH.
Qed.

(* ------------------------------------------------------------------ *)
(** * Claims *)

(** C1 (code_bug). A record with [event_len] smaller than the header size is
    not treated as a record-local fault: with [event_len = 0] the offset never
    moves, so the record loop never leaves, the read loop never reaches its
    next [read], and every pass re-decodes the same bytes and closes the same
    descriptor again. *)
Theorem zero_event_len_never_advances :
  (forall fuel junk s, record_loop fuel (zero_len_buffer ++ junk) 24 0 s = None) /\
  (forall fuel ffd rest st, read_loop fuel ffd (ReadData zero_len_buffer :: rest) st = None) /\
  match record_step zero_len_buffer 24 0 (init_pstate (fds_one 5 test_file_path)) with
  | Next o1 s1 =>
      match record_step zero_len_buffer 24 o1 s1 with
      | Next o2 s2 => o1 = 0%nat /\ o2 = 0%nat /\ ps_closed s2 = [5; 5]
      | Exit => False
      end
  | Exit => False
  end.
Proof.
  split; [exact record_loop_zero_len|split].
  - intros fuel ffd rest st. cbn [read_loop].
    change (List.length zero_len_buffer) with 24%nat. cbn [Nat.eqb].
    unfold fill_buffer. change (List.length zero_len_buffer) with 24%nat.
    now rewrite record_loop_zero_len.
  - vm_compute. repeat split.
Qed.

(** C2 (counterexample). A record whose [event_len] runs past the bytes read
    is decoded as a normal event, and the read loop goes on to its next read. *)
Lemma overlong_record_decoded :
  option_map
    (fun r => (map (fun e => (event_len (ev_record e), ev_types e)) (ps_events (ls_proc (fst r))),
               snd r))
    (read_loop 2 3 [ReadData overlong_buffer; ReadErr EIO] init_lstate)
  = Some ([(48, [MODIFY])], MainOk).
Proof. vm_compute. reflexivity. Qed.

(** C2 (amended). The record loop runs a running offset from 0 and advances it
    by each record's [event_len]: a buffer of well-framed records is decoded
    record by record, in order; a record is decoded as soon as its 24-byte
    header lies within the bytes read, whatever its [event_len]; when fewer than
    24 bytes remain the loop stops without error and the read loop proceeds to
    its next read. *)
Theorem record_loop_running_offset :
  (forall frames junk s,
     forallb wf_frame frames = true ->
     exists s',
       record_loop (S (List.length frames)) (List.concat (map frame_bytes frames) ++ junk)
         (List.length (List.concat (map frame_bytes frames))) 0 s = Some s' /\
       map ev_record (ps_events s') = map ev_record (ps_events s) ++ map fst frames) /\
  (forall buf n off s,
     (off + METADATA_SIZE <= n)%nat ->
     record_step buf n off s =
     Next (off + Z.to_nat (event_len (read_metadata buf off))) (decode_record buf off s)) /\
  (forall buf n off s,
     (off < n < off + METADATA_SIZE)%nat -> record_step buf n off s = Exit) /\
  (forall fuel ffd data rest st p,
     data <> [] ->
     record_loop fuel (fill_buffer (ls_buffer st) data) (List.length data) 0 (ls_proc st) = Some p ->
     read_loop fuel ffd (ReadData data :: rest) st =
     read_loop fuel ffd rest
       {| ls_buffer := fill_buffer (ls_buffer st) data; ls_proc := p; ls_stderr := ls_stderr st |}).
Proof.
  split; [|split; [|split]].
  - exact record_loop_frames.
  - intros buf n off s H. unfold record_step, METADATA_SIZE in *.
    destruct (Nat.ltb_spec off n); [|lia].
    destruct (Nat.ltb_spec n (off + 24)); [lia|reflexivity].
  - intros buf n off s H. unfold record_step, METADATA_SIZE in *.
    destruct (Nat.ltb_spec off n); [|lia].
    destruct (Nat.ltb_spec n (off + 24)); [reflexivity|lia].
  - intros fuel ffd data rest st p Hne Hrun. cbn [read_loop].
    destruct (Nat.eqb_spec (List.length data) 0) as [H0|_].
    + apply length_zero_iff_nil in H0. contradiction.
    + now rewrite Hrun.
Qed.

Lemma record_loop_running_offset_witness :
  (exists s',
     record_loop 3 (List.concat (map frame_bytes [(rec_of 24 10 7 1, []); (rec_of 28 1 (-1) 2, [0; 0; 0; 0])]) ++ [9])
       (List.length (List.concat (map frame_bytes [(rec_of 24 10 7 1, []); (rec_of 28 1 (-1) 2, [0; 0; 0; 0])])))
       0 (init_pstate empty_fds) = Some s' /\
     map ev_record (ps_events s') = [rec_of 24 10 7 1; rec_of 28 1 (-1) 2]) /\
  record_step overlong_buffer 24 0 (init_pstate empty_fds) =
    Next 48 (decode_record overlong_buffer 0 (init_pstate empty_fds)) /\
  record_step overlong_buffer 20 0 (init_pstate empty_fds) = Exit /\
  read_loop 2 3 [ReadData overlong_buffer] init_lstate =
    read_loop 2 3 []
      {| ls_buffer := fill_buffer (ls_buffer init_lstate) overlong_buffer;
         ls_proc := decode_record (fill_buffer (ls_buffer init_lstate) overlong_buffer) 0
                      (init_pstate empty_fds);
         ls_stderr := [] |}.
Proof.
  destruct record_loop_running_offset as [H1 [H2 [H3 H4]]].
  split; [|split; [|split]].
  - exact (H1 [(rec_of 24 10 7 1, []); (rec_of 28 1 (-1) 2, [0; 0; 0; 0])] [9]
             (init_pstate empty_fds) eq_refl).
  - apply (H2 overlong_buffer 24%nat 0%nat (init_pstate empty_fds)). vm_compute. lia.
  - apply (H3 overlong_buffer 20%nat 0%nat (init_pstate empty_fds)). vm_compute. lia.
  - apply (H4 2%nat 3 overlong_buffer [] init_lstate).
    + discriminate.
    + vm_compute. reflexivity.
Defined.

(* ------------------------------------------------------------------ *)
(** * Helper lemmas: per-record effects and kinds *)

Lemma decode_record_effects (buf : list Z) (off : nat) (s : PState) :
  let ev := read_metadata buf off in
  let s' := decode_record buf off s in
  exists e,
    ps_events s' = ps_events s ++ [e] /\
    ev_record e = ev /\
    ev_path e = path_info_of (ps_fds s) (fd ev) /\
    ev_types e = event_types_of (mask ev) /\
    ps_closed s' = ps_closed s ++ (if 0 <=? fd ev then [fd ev] else []) /\
    ps_fds s' = (if 0 <=? fd ev then fd_close (ps_fds s) (fd ev) else ps_fds s).
Proof.
  cbv zeta. unfold decode_record.
  destruct (0 <=? fd (read_metadata buf off)); cbn;
    eexists; repeat split; now rewrite ?app_nil_r.
Qed.


Lemma in_event_types_of (m : Z) (k : EventKind) :
  In k (event_types_of m) <-> Z.land m (kind_bit k) <> 0.
Proof.
  unfold event_types_of.
  destruct (Z.eqb_spec (Z.land m FAN_ATTRIB) 0), (Z.eqb_spec (Z.land m FAN_OPEN) 0),
    (Z.eqb_spec (Z.land m FAN_MODIFY) 0), (Z.eqb_spec (Z.land m FAN_CLOSE_WRITE) 0);
    destruct k; cbn [app In kind_bit]; split; intros H; intuition (try discriminate; try congruence).
Qed.

Lemma event_types_of_nodup (m : Z) : NoDup (event_types_of m).
Proof.
  unfold event_types_of.
  destruct (Z.land m FAN_ATTRIB =? 0), (Z.land m FAN_OPEN =? 0),
    (Z.land m FAN_MODIFY =? 0), (Z.land m FAN_CLOSE_WRITE =? 0);
    cbn [app]; repeat constructor; cbn; intuition discriminate.
Qed.

Lemma event_types_of_low_bits (m : Z) : event_types_of m = event_types_of (Z.land m 15).
Proof.
  unfold event_types_of. rewrite <- !Z.land_assoc. reflexivity.
Qed.





(** C5. Each known bit of the mask is tested on its own: a kind is reported
    exactly when its bit is set, no kind twice, and every record yields one
    event carrying all of them; MODIFY together with CLOSE_WRITE gives one
    event with both kinds. *)
Theorem event_types_all_matched_bits :
  (forall m k, In k (event_types_of m) <-> Z.land m (kind_bit k) <> 0) /\
  (forall m, NoDup (event_types_of m)) /\
  (forall buf off s,
     exists e,
       ps_events (decode_record buf off s) = ps_events s ++ [e] /\
       ev_types e = event_types_of (mask (read_metadata buf off))) /\
  event_types_of (Z.lor FAN_MODIFY FAN_CLOSE_WRITE) = [MODIFY; CLOSE_WRITE].
Proof.
  split; [exact in_event_types_of|split; [exact event_types_of_nodup|split]].
  - intros buf off s.
    destruct (decode_record_effects buf off s) as [e [He [_ [_ [Ht _]]]]].
    exists e. split; assumption.
  - reflexivity.
Qed.

(** C7. When a record's descriptor is non-negative but does not resolve, the
    record is still decoded, its event reports the raw descriptor, and the
    loop goes on with the next offset. *)
Theorem unresolved_fd_reported_raw (buf : list Z) (n off : nat) (s : PState) :
  (off + METADATA_SIZE <= n)%nat ->
  0 <= fd (read_metadata buf off) ->
  ps_fds s (fd (read_metadata buf off)) = None ->
  exists s',
    record_step buf n off s =
      Next (off + Z.to_nat (event_len (read_metadata buf off))) s' /\
    exists e, ps_events s' = ps_events s ++ [e] /\ ev_path e = PathFd (fd (read_metadata buf off)).
Proof.
  intros Hhdr Hfd Hres.
  exists (decode_record buf off s). split.
  - unfold record_step, METADATA_SIZE in *.
    destruct (Nat.ltb_spec off n); [|lia].
    destruct (Nat.ltb_spec n (off + 24)); [lia|reflexivity].
  - destruct (decode_record_effects buf off s) as [e [He [_ [Hp _]]]].
    exists e. split; [exact He|].
    rewrite Hp. unfold path_info_of. apply Z.leb_le in Hfd. now rewrite Hfd, Hres.
Qed.

Lemma unresolved_fd_reported_raw_witness :
  exists s',
    record_step (encode_metadata (rec_of 24 FAN_MODIFY 7 1)) 24 0 (init_pstate empty_fds) =
      Next 24 s' /\
    exists e, ps_events s' = [e] /\ ev_path e = PathFd 7.
Proof.
  apply (unresolved_fd_reported_raw (encode_metadata (rec_of 24 FAN_MODIFY 7 1)) 24 0
           (init_pstate empty_fds)).
  - vm_compute. lia.
  - vm_compute. discriminate.
  - reflexivity.
Defined.

(** C8 (counterexample). A record whose mask has none of the four known bits
    ([0x4000] is the kernel's queue-overflow bit, sent with descriptor [-1]
    whatever was registered) is decoded into an event with no kinds, and a
    MODIFY bit is reported though the metadata-focused registration does not
    contain it: the kinds are not filtered by the registered mask. *)
Lemma event_types_not_registered_subset :
  map ev_types (ps_events (decode_record (encode_metadata (rec_of 24 0x4000 (-1) 1)) 0
                             (init_pstate empty_fds))) = [[]] /\
  event_types_of FAN_MODIFY = [MODIFY] /\
  Z.land mask_metadata_focused FAN_MODIFY = 0.
Proof. vm_compute. repeat split. Qed.

Lemma land_bit_subset (reg m b : Z) :
  Z.land m (Z.lnot reg) = 0 -> Z.land m b <> 0 -> Z.land reg b <> 0.
Proof.
  intros H1 H2 H3. apply H2. apply Z.bits_inj'. intros j Hj.
  pose proof (f_equal (fun x => Z.testbit x j) H1) as E1.
  pose proof (f_equal (fun x => Z.testbit x j) H3) as E3.
  cbn beta in E1, E3.
  rewrite Z.land_spec, Z.lnot_spec, Z.bits_0 in E1 by lia.
  rewrite Z.land_spec, Z.bits_0 in E3.
  rewrite Z.land_spec, Z.bits_0.
  destruct (Z.testbit m j), (Z.testbit reg j), (Z.testbit b j); cbn in *; congruence.
Qed.

(** C8 (amended). The kinds are recomputed from the record's mask: a kind
    is reported only when its bit is in the mask, so when the mask carries
    only registered bits the kinds are registered kinds; the list is empty
    exactly when none of the four known bits is set; bits other than the four
    are ignored; and every known kind whose bit is set is reported. *)
Theorem event_types_recomputed_from_mask :
  (forall reg m k,
     Z.land m (Z.lnot reg) = 0 -> In k (event_types_of m) -> Z.land reg (kind_bit k) <> 0) /\
  (forall m, event_types_of m = [] <-> forall k, Z.land m (kind_bit k) = 0) /\
  (forall m, event_types_of m = event_types_of (Z.land m 15)) /\
  (forall m k, Z.land m (kind_bit k) <> 0 -> In k (event_types_of m)).
Proof.
  split; [|split; [|split; [exact event_types_of_low_bits|]]].
  3: { intros m k Hk. now apply in_event_types_of. }
  - intros reg m k Hsub Hin. apply in_event_types_of in Hin.
    exact (land_bit_subset reg m (kind_bit k) Hsub Hin).
  - intros m. split.
    + intros Hnil k. destruct (Z.eq_dec (Z.land m (kind_bit k)) 0) as [|Hne]; [assumption|].
      apply in_event_types_of in Hne. rewrite Hnil in Hne. destruct Hne.
    + intros Hall. destruct (event_types_of m) as [|k l] eqn:E; [reflexivity|].
      exfalso. apply (proj1 (in_event_types_of m k)); [rewrite E; left; reflexivity|apply Hall].
Qed.

Lemma event_types_recomputed_from_mask_witness :
  Z.land (Z.lor FAN_MODIFY FAN_OPEN) (Z.lnot mask_fallback) = 0 /\
  In MODIFY (event_types_of (Z.lor FAN_MODIFY FAN_OPEN)) /\
  Z.land mask_fallback (kind_bit MODIFY) <> 0.
Proof.
  assert (H1 : Z.land (Z.lor FAN_MODIFY FAN_OPEN) (Z.lnot mask_fallback) = 0) by reflexivity.
  assert (H2 : In MODIFY (event_types_of (Z.lor FAN_MODIFY FAN_OPEN))) by (cbn; auto).
  split; [exact H1|split; [exact H2|]].
  exact (proj1 event_types_recomputed_from_mask mask_fallback _ MODIFY H1 H2).
Defined.

(** C9 (counterexample). CREATE and DELETE have no constant in the program
    and are not decoded: a mask carrying the kernel's CREATE or DELETE bit
    yields no kind. *)
Lemma create_delete_not_decoded :
  event_types_of KERNEL_FAN_CREATE = [] /\ event_types_of KERNEL_FAN_DELETE = [].
Proof. split; reflexivity. Qed.

(** C9 (amended). The program supports four kinds, OPEN, MODIFY, CLOSE_WRITE
    and ATTRIB, each with its mask constant; every record whose mask has one of
    these bits reports that kind; the registered masks use only these bits, and
    any other bit (CREATE and DELETE among them) is never decoded. *)
Theorem four_kinds_decoded :
  (forall m k, Z.land m (kind_bit k) <> 0 -> In k (event_types_of m)) /\
  map kind_bit [ATTRIB_METADATA; OPEN; MODIFY; CLOSE_WRITE] =
    [FAN_ATTRIB; FAN_OPEN; FAN_MODIFY; FAN_CLOSE_WRITE] /\
  Z.lor (Z.lor mask_metadata_focused mask_fallback) FAN_ATTRIB =
    Z.lor (Z.lor (Z.lor FAN_ATTRIB FAN_OPEN) FAN_MODIFY) FAN_CLOSE_WRITE /\
  (forall m, event_types_of (Z.land m (Z.lnot 15)) = []).
Proof.
  split; [|split; [reflexivity|split; [reflexivity|]]].
  - intros m k H. now apply in_event_types_of.
  - intros m. unfold event_types_of. rewrite <- !Z.land_assoc. cbn.
    rewrite !Z.land_0_r. reflexivity.
Qed.

Lemma four_kinds_decoded_witness :
  Z.land (Z.lor FAN_MODIFY FAN_CLOSE_WRITE) (kind_bit CLOSE_WRITE) <> 0 /\
  In CLOSE_WRITE (event_types_of (Z.lor FAN_MODIFY FAN_CLOSE_WRITE)).
Proof.
  assert (H : Z.land (Z.lor FAN_MODIFY FAN_CLOSE_WRITE) (kind_bit CLOSE_WRITE) <> 0)
    by (vm_compute; discriminate).
  split; [exact H|].
  exact (proj1 four_kinds_decoded _ CLOSE_WRITE H).
Defined.

(** C6 (counterexample). A read failing with EIO ends the loop, is printed
    once, and [main] still returns [Ok(())]: the error is not returned to
    [main]'s caller. *)
Lemma fatal_read_error_returns_ok :
  option_map (fun r => (ls_stderr (fst r), snd r)) (read_loop 1 3 [ReadErr EIO] init_lstate)
  = Some ([EIO], MainOk).
Proof. reflexivity. Qed.

(** C6 (amended). A read failing with EINTR or EAGAIN is retried: the loop
    goes on with the next read, with no trace in its state or result. A read
    failing with any other errno ends the loop: the errno is printed once on
    stderr, the session descriptor is closed, no event is added, and [main]
    returns [Ok(())]. *)
Theorem read_errors_classified :
  (forall fuel ffd e rest st,
     e = EINTR \/ e = EAGAIN ->
     read_loop fuel ffd (ReadErr e :: rest) st = read_loop fuel ffd rest st) /\
  (forall fuel ffd e rest st,
     e <> EINTR -> e <> EAGAIN ->
     exists st',
       read_loop fuel ffd (ReadErr e :: rest) st = Some (st', MainOk) /\
       ls_stderr st' = ls_stderr st ++ [e] /\
       ps_closed (ls_proc st') = ps_closed (ls_proc st) ++ [ffd] /\
       ps_events (ls_proc st') = ps_events (ls_proc st)).
Proof.
  split.
  - intros fuel ffd e rest st [-> | ->]; reflexivity.
  - intros fuel ffd e rest st H1 H2. cbn [read_loop].
    destruct (Z.eqb_spec e EINTR); [contradiction|].
    destruct (Z.eqb_spec e EAGAIN); [contradiction|].
    eexists. split; [reflexivity|]. cbn. repeat split.
Qed.

Lemma read_errors_classified_witness :
  read_loop 1 3 [ReadErr EINTR; ReadErr EAGAIN; ReadErr EPERM] init_lstate =
    read_loop 1 3 [ReadErr EAGAIN; ReadErr EPERM] init_lstate /\
  exists st',
    read_loop 1 3 [ReadErr EPERM] init_lstate = Some (st', MainOk) /\
    ls_stderr st' = [EPERM] /\ ps_closed (ls_proc st') = [3] /\ ps_events (ls_proc st') = [].
Proof.
  destruct read_errors_classified as [H1 H2]. split.
  - apply H1. left. reflexivity.
  - apply (H2 1%nat 3 EPERM [] init_lstate); discriminate.
Defined.




(** C10. When both the metadata-focused mark and the fallback mark fail, the
    session descriptor is closed, as the last call, before [main] returns the
    error of the fallback mark. *)
Theorem total_mark_failure_closes_session (env : SetupEnv) (ffd e1 e2 : Z) :
  fanotify_mark env FAN_MARK_ADD mask_metadata_focused AT_FDCWD test_file_path = MarkErr e1 ->
  fanotify_mark env FAN_MARK_ADD mask_fallback AT_FDCWD test_file_path = MarkErr e2 ->
  register env ffd =
    ([SysMark FAN_MARK_ADD mask_metadata_focused AT_FDCWD test_file_path;
      SysMark FAN_MARK_ADD mask_fallback AT_FDCWD test_file_path;
      SysClose ffd], SetupFailed e2).
Proof. intros H1 H2. unfold register. now rewrite H1, H2. Qed.

Lemma total_mark_failure_closes_session_witness :
  register (env_of (MarkErr EPERM) (MarkErr EINVAL) MarkOk None) 3 =
    ([SysMark FAN_MARK_ADD mask_metadata_focused AT_FDCWD test_file_path;
      SysMark FAN_MARK_ADD mask_fallback AT_FDCWD test_file_path;
      SysClose 3], SetupFailed EINVAL).
Proof. apply (total_mark_failure_closes_session _ 3 EPERM EINVAL); reflexivity. Defined.

(* ------------------------------------------------------------------ *)
(** * Further properties of the code *)

(** ** Helpers: reads inside the bytes read *)

Lemma le_uint_app_prefix (d junk : list Z) (off w : nat) :
  (off + w <= List.length d)%nat -> le_uint (d ++ junk) off w = le_uint d off w.
Proof.
  revert off. induction w as [|w IH]; intros off H; [reflexivity|].
  cbn [le_uint]. unfold byte_at. rewrite app_nth1 by lia. rewrite IH by lia. reflexivity.
Qed.

Lemma read_metadata_app_prefix (d junk : list Z) (off : nat) :
  (off + METADATA_SIZE <= List.length d)%nat ->
  read_metadata (d ++ junk) off = read_metadata d off.
Proof.
  unfold METADATA_SIZE. intros H. unfold read_metadata, byte_at.
  rewrite !le_uint_app_prefix by lia. rewrite !app_nth1 by lia. reflexivity.
Qed.

Lemma record_loop_app_prefix (fuel : nat) (d junk : list Z) (off : nat) (s : PState) :
  record_loop fuel (d ++ junk) (List.length d) off s = record_loop fuel d (List.length d) off s.
Proof.
  revert off s. induction fuel as [|fuel IH]; intros off s; [reflexivity|].
  rewrite !record_loop_S. unfold record_step.
  destruct (Nat.ltb off (List.length d)); [|reflexivity].
  destruct (Nat.ltb_spec (List.length d) (off + METADATA_SIZE)); [reflexivity|].
  unfold decode_record. rewrite read_metadata_app_prefix by lia.
  apply IH.
Qed.

(** ** Helpers: event numbering *)

Lemma wrap_i32_mod (x : Z) : wrap_i32 x mod 2 ^ 32 = x mod 2 ^ 32.
Proof.
  unfold wrap_i32, to_i32.
  pose proof (Z.mod_pos_bound x (2 ^ 32) ltac:(lia)).
  destruct (Z.ltb_spec (x mod 2 ^ 32) (2 ^ 31)).
  - apply Z.mod_mod. lia.
  - rewrite Zminus_mod, Z.mod_mod, Z_mod_same_full, Z.sub_0_r, Z.mod_mod by lia. reflexivity.
Qed.

Lemma wrap_i32_succ (x : Z) : wrap_i32 (wrap_i32 x + 1) = wrap_i32 (x + 1).
Proof.
  unfold wrap_i32 at 1 3. f_equal.
  rewrite Z.add_mod, wrap_i32_mod, <- Z.add_mod by lia. reflexivity.
Qed.

Lemma wrap_i32_small (x : Z) : 0 <= x < 2 ^ 31 -> wrap_i32 x = x.
Proof.
  intros H. unfold wrap_i32, to_i32. rewrite Z.mod_small by lia.
  destruct (Z.ltb_spec x (2 ^ 31)); lia.
Qed.

Lemma numbered_from_cons (c : Z) (e : Event) (new : list Event) :
  ev_count e = wrap_i32 (c + 1) -> numbered_from (c + 1) new -> numbered_from c (e :: new).
Proof.
  unfold numbered_from. intros He Hn. cbn [map List.length seq]. rewrite He. f_equal.
  rewrite Hn, <- (seq_shift (List.length new) 1), map_map. apply map_ext. intros i.
  f_equal. lia.
Qed.

Lemma map_seq_offset (c : Z) (k start n : nat) :
  map (fun i => wrap_i32 (c + Z.of_nat i)) (seq (k + start) n) =
  map (fun i => wrap_i32 (c + Z.of_nat k + Z.of_nat i)) (seq start n).
Proof.
  revert start. induction n as [|n IH]; intros start; [reflexivity|].
  cbn [seq map]. rewrite <- IH. replace (S (k + start)) with (k + S start)%nat by lia.
  f_equal. f_equal. lia.
Qed.

Lemma numbered_from_app (c : Z) (a b : list Event) :
  numbered_from c a -> numbered_from (c + Z.of_nat (List.length a)) b ->
  numbered_from c (a ++ b).
Proof.
  unfold numbered_from. intros Ha Hb.
  rewrite map_app, Ha, Hb, length_app, seq_app, map_app. f_equal.
  replace (1 + List.length a)%nat with (List.length a + 1)%nat by lia.
  now rewrite map_seq_offset.
Qed.

Lemma decode_record_numbered (buf : list Z) (off : nat) (s : PState) :
  exists e,
    ps_events (decode_record buf off s) = ps_events s ++ [e] /\
    ev_count e = wrap_i32 (ps_count s + 1) /\
    ps_count (decode_record buf off s) = wrap_i32 (ps_count s + 1).
Proof.
  unfold decode_record. destruct (0 <=? fd (read_metadata buf off)); cbn;
    eexists; repeat split.
Qed.

(** [c] is the count without wrap-around; [ps_count] holds it wrapped. *)
Lemma record_loop_numbered (fuel : nat) (buf : list Z) (n off : nat) (s s' : PState) (c : Z) :
  ps_count s = wrap_i32 c ->
  record_loop fuel buf n off s = Some s' ->
  exists new,
    ps_events s' = ps_events s ++ new /\
    numbered_from c new /\
    ps_count s' = wrap_i32 (c + Z.of_nat (List.length new)).
Proof.
  revert off s c. induction fuel as [|fuel IH]; intros off s c Hc0 Hrun; [discriminate|].
  rewrite record_loop_S in Hrun. unfold record_step in Hrun.
  destruct (Nat.ltb off n); [destruct (Nat.ltb n (off + METADATA_SIZE))|].
  - injection Hrun as <-. exists []. rewrite app_nil_r, Z.add_0_r. repeat split. exact Hc0.
  - destruct (decode_record_numbered buf off s) as [e [He [Hce Hcs]]].
    rewrite Hc0, wrap_i32_succ in Hce, Hcs.
    apply (IH _ _ (c + 1) Hcs) in Hrun as [new [Hev [Hnum Hc]]].
    exists (e :: new). rewrite Hev, He, <- app_assoc. split; [reflexivity|split].
    + now apply numbered_from_cons.
    + rewrite Hc. cbn [List.length]. f_equal. lia.
  - injection Hrun as <-. exists []. rewrite app_nil_r, Z.add_0_r. repeat split. exact Hc0.
Qed.

Lemma read_loop_numbered (fuel : nat) (ffd : Z) (reads : list ReadResult)
  (st st' : LState) (r : MainResult) (c : Z) :
  ps_count (ls_proc st) = wrap_i32 c ->
  read_loop fuel ffd reads st = Some (st', r) ->
  exists new,
    ps_events (ls_proc st') = ps_events (ls_proc st) ++ new /\
    numbered_from c new /\
    ps_count (ls_proc st') = wrap_i32 (c + Z.of_nat (List.length new)).
Proof.
  revert st c. induction reads as [|rd reads IH]; intros st c Hc0 Hrun; [discriminate|].
  destruct rd as [e|data]; cbn [read_loop] in Hrun.
  - destruct (Z.eqb e EINTR); [now apply (IH st)|].
    destruct (Z.eqb e EAGAIN); [now apply (IH st)|].
    injection Hrun as <- _. exists []. rewrite app_nil_r, Z.add_0_r. repeat split. exact Hc0.
  - destruct (Nat.eqb (List.length data) 0); [now apply (IH st)|].
    destruct (record_loop fuel (fill_buffer (ls_buffer st) data) (List.length data) 0 (ls_proc st))
      as [p|] eqn:Hrl; [|discriminate].
    apply (record_loop_numbered _ _ _ _ _ _ c Hc0) in Hrl as [new1 [He1 [Hn1 Hc1]]].
    apply (IH _ (c + Z.of_nat (List.length new1))) in Hrun as [new2 [He2 [Hn2 Hc2]]];
      [|exact Hc1].
    cbn [ls_proc] in He2, Hn2, Hc2.
    exists (new1 ++ new2). rewrite He2, He1, app_assoc. split; [reflexivity|split].
    + apply numbered_from_app; assumption.
    + rewrite Hc2, length_app. f_equal. lia.
Qed.

(** ** Extra properties *)

(** The struct overlay reads back every field of a header laid out as the
    [#[repr(C)]] struct, whatever bytes follow it. *)
Theorem header_overlay_roundtrip (m : FanotifyEventMetadata) (rest : list Z) :
  wf_record m = true -> read_metadata (encode_metadata m ++ rest) 0 = m.
Proof. apply read_encode_metadata. Qed.

Lemma header_overlay_roundtrip_witness :
  wf_record (rec_of 24 FAN_CLOSE_WRITE (-1) (-7)) = true /\
  read_metadata (encode_metadata (rec_of 24 FAN_CLOSE_WRITE (-1) (-7)) ++ [1; 2; 3]) 0 =
    rec_of 24 FAN_CLOSE_WRITE (-1) (-7).
Proof.
  assert (H : wf_record (rec_of 24 FAN_CLOSE_WRITE (-1) (-7)) = true) by reflexivity.
  split; [exact H|]. exact (header_overlay_roundtrip _ [1; 2; 3] H).
Defined.

(** Parsing one read's buffer depends only on the bytes that read returned:
    the bytes after them (stale contents of the 4096-byte buffer) are never
    looked at. *)
Theorem record_loop_reads_only_bytes_read (fuel : nat) (d junk : list Z) (off : nat) (s : PState) :
  record_loop fuel (d ++ junk) (List.length d) off s = record_loop fuel d (List.length d) off s.
Proof. apply record_loop_app_prefix. Qed.

(** The whole event loop behaves the same whatever the buffer held before:
    the events, closes, messages and result do not depend on stale bytes. *)
Theorem read_loop_ignores_stale_bytes (fuel : nat) (ffd : Z) (reads : list ReadResult)
  (b1 b2 : list Z) (p : PState) (errs : list Z) :
  strip_buffer (read_loop fuel ffd reads {| ls_buffer := b1; ls_proc := p; ls_stderr := errs |}) =
  strip_buffer (read_loop fuel ffd reads {| ls_buffer := b2; ls_proc := p; ls_stderr := errs |}).
Proof.
  revert b1 b2 p errs. induction reads as [|rd reads IH]; intros b1 b2 p errs; [reflexivity|].
  destruct rd as [e|data]; cbn [read_loop ls_buffer ls_proc ls_stderr].
  - destruct (Z.eqb e EINTR); [apply IH|].
    destruct (Z.eqb e EAGAIN); [apply IH|reflexivity].
  - destruct (Nat.eqb (List.length data) 0); [apply IH|].
    unfold fill_buffer. rewrite !record_loop_app_prefix.
    destruct (record_loop fuel data (List.length data) 0 p); [apply IH|reflexivity].
Qed.

(** A record without a descriptor (negative [fd]) is still reported, with
    path "unknown", and nothing is closed for it. *)
Theorem nofd_record_reported_unknown (buf : list Z) (off : nat) (s : PState) :
  fd (read_metadata buf off) < 0 ->
  ps_closed (decode_record buf off s) = ps_closed s /\
  ps_fds (decode_record buf off s) = ps_fds s /\
  exists e, ps_events (decode_record buf off s) = ps_events s ++ [e] /\ ev_path e = PathUnknown.
Proof.
  intros Hfd. destruct (decode_record_effects buf off s) as [e [He [_ [Hp [_ [Hc Hf]]]]]].
  destruct (Z.leb_spec 0 (fd (read_metadata buf off))) as [H|_]; [lia|].
  rewrite app_nil_r in Hc. split; [exact Hc|split; [exact Hf|]].
  exists e. split; [exact He|]. rewrite Hp. unfold path_info_of.
  destruct (Z.leb_spec 0 (fd (read_metadata buf off))); [lia|reflexivity].
Qed.

Lemma nofd_record_reported_unknown_witness :
  fd (read_metadata (encode_metadata (rec_of 24 0x4000 (-1) 0)) 0) < 0 /\
  ps_closed (decode_record (encode_metadata (rec_of 24 0x4000 (-1) 0)) 0 (init_pstate empty_fds)) = [].
Proof.
  assert (H : fd (read_metadata (encode_metadata (rec_of 24 0x4000 (-1) 0)) 0) < 0)
    by (vm_compute; reflexivity).
  split; [exact H|].
  exact (proj1 (nofd_record_reported_unknown _ 0 (init_pstate empty_fds) H)).
Defined.

(** [event_count] (an [i32]) numbers the reported records across all the
    reads of the event loop: the [i]-th record gets [i] wrapped to [i32], and
    the counter ends at the number of records, wrapped. While fewer than
    [2^31] records have been reported nothing wraps, and the records are
    numbered 1, 2, 3, ... without gaps or repeats. *)
Theorem event_count_consecutive (fuel : nat) (ffd : Z) (reads : list ReadResult)
  (t : FdTable) (st' : LState) (r : MainResult) :
  read_loop fuel ffd reads (loop_start t) = Some (st', r) ->
  map ev_count (ps_events (ls_proc st')) =
    map (fun i => wrap_i32 (Z.of_nat i)) (seq 1 (List.length (ps_events (ls_proc st')))) /\
  ps_count (ls_proc st') = wrap_i32 (Z.of_nat (List.length (ps_events (ls_proc st')))) /\
  (Z.of_nat (List.length (ps_events (ls_proc st'))) < 2 ^ 31 ->
   map ev_count (ps_events (ls_proc st')) =
     map Z.of_nat (seq 1 (List.length (ps_events (ls_proc st')))) /\
   ps_count (ls_proc st') = Z.of_nat (List.length (ps_events (ls_proc st')))).
Proof.
  intros Hrun.
  apply (read_loop_numbered _ _ _ (loop_start t) _ _ 0 ltac:(reflexivity)) in Hrun
    as [new [He [Hn Hc]]].
  cbn [loop_start init_pstate ls_proc ps_events app] in He. rewrite He, Hc.
  unfold numbered_from in Hn.
  assert (Hn' : map ev_count new = map (fun i => wrap_i32 (Z.of_nat i)) (seq 1 (List.length new))).
  { rewrite Hn. apply map_ext. intros i. now rewrite Z.add_0_l. }
  rewrite Z.add_0_l. split; [exact Hn'|split; [reflexivity|]].
  intros Hlt. split.
  - rewrite Hn'. apply map_ext_in. intros i Hi. apply in_seq in Hi.
    apply wrap_i32_small. lia.
  - apply wrap_i32_small. lia.
Qed.

Lemma event_count_consecutive_witness :
  read_loop 10 3 [ReadData (encode_metadata (rec_of 24 1 (-1) 1)); ReadErr EINTR;
                  ReadData (encode_metadata (rec_of 24 2 (-1) 1) ++ encode_metadata (rec_of 24 8 (-1) 1));
                  ReadErr EIO] (loop_start empty_fds) <> None /\
  forall st' r,
    read_loop 10 3 [ReadData (encode_metadata (rec_of 24 1 (-1) 1)); ReadErr EINTR;
                    ReadData (encode_metadata (rec_of 24 2 (-1) 1) ++ encode_metadata (rec_of 24 8 (-1) 1));
                    ReadErr EIO] (loop_start empty_fds) = Some (st', r) ->
    map ev_count (ps_events (ls_proc st')) = [1; 2; 3].
Proof.
  split; [vm_compute; discriminate|].
  intros st' r Hrun. pose proof (Hrun) as H.
  apply event_count_consecutive in H as [_ [_ H3]].
  vm_compute in Hrun. injection Hrun as <- _.
  rewrite (proj1 (H3 ltac:(vm_compute; reflexivity))). vm_compute. reflexivity.
Defined.

(** The event loop only ever leaves on a read error other than EINTR and
    EAGAIN: the reads before it were data or transient errors; the reads
    after it are never made (whatever they would return, the final state and
    result are the same); its errno is the one message printed on stderr; the
    session descriptor is the last one closed; and [main] returns [Ok(())]. *)
Theorem read_loop_exit (fuel : nat) (ffd : Z) (reads : list ReadResult) (st st' : LState)
  (r : MainResult) :
  read_loop fuel ffd reads st = Some (st', r) ->
  r = MainOk /\
  exists pre e post,
    reads = pre ++ ReadErr e :: post /\
    transient_errno e = false /\
    Forall (fun rd => forall e', rd = ReadErr e' -> transient_errno e' = true) pre /\
    (forall post', read_loop fuel ffd (pre ++ ReadErr e :: post') st = Some (st', MainOk)) /\
    ls_stderr st' = ls_stderr st ++ [e] /\
    exists cl, ps_closed (ls_proc st') = cl ++ [ffd].
Proof.
  revert st. induction reads as [|rd reads IH]; intros st Hrun; [discriminate|].
  destruct rd as [e|data]; cbn [read_loop] in Hrun.
  - destruct (Z.eqb_spec e EINTR) as [He|He].
    + apply IH in Hrun as [Hr [pre [e' [post [Hreads [Ht [Hpre [Hpost Hrest]]]]]]]].
      split; [exact Hr|]. exists (ReadErr e :: pre), e', post.
      rewrite Hreads. split; [reflexivity|split; [exact Ht|split; [|split; [|exact Hrest]]]].
      * constructor; [|exact Hpre]. intros e'' Heq. injection Heq as <-.
        unfold transient_errno. now rewrite He, Z.eqb_refl.
      * intros post'. cbn [app read_loop].
        destruct (Z.eqb_spec e EINTR); [exact (Hpost post')|contradiction].
    + destruct (Z.eqb_spec e EAGAIN) as [He'|He'].
      * apply IH in Hrun as [Hr [pre [e' [post [Hreads [Ht [Hpre [Hpost Hrest]]]]]]]].
        split; [exact Hr|]. exists (ReadErr e :: pre), e', post.
        rewrite Hreads. split; [reflexivity|split; [exact Ht|split; [|split; [|exact Hrest]]]].
        -- constructor; [|exact Hpre]. intros e'' Heq. injection Heq as <-.
           unfold transient_errno. rewrite He'. apply orb_true_r.
        -- intros post'. cbn [app read_loop].
           destruct (Z.eqb_spec e EINTR); [contradiction|].
           destruct (Z.eqb_spec e EAGAIN); [exact (Hpost post')|contradiction].
      * injection Hrun as <- <-. split; [reflexivity|].
        exists [], e, reads. split; [reflexivity|split].
        -- unfold transient_errno. apply orb_false_iff.
           split; apply Z.eqb_neq; assumption.
        -- split; [constructor|split; [|split; [reflexivity|eexists; reflexivity]]].
           intros post'. cbn [app read_loop].
           destruct (Z.eqb_spec e EINTR); [contradiction|].
           destruct (Z.eqb_spec e EAGAIN); [contradiction|reflexivity].
  - destruct (Nat.eqb (List.length data) 0) eqn:E0.
    2: destruct (record_loop fuel (fill_buffer (ls_buffer st) data) (List.length data) 0 (ls_proc st))
         eqn:Hrl; [|discriminate].
    all: apply IH in Hrun as [Hr [pre [e' [post [Hreads [Ht [Hpre [Hpost Hrest]]]]]]]];
      split; [exact Hr|]; exists (ReadData data :: pre), e', post;
      rewrite Hreads; split; [reflexivity|split; [exact Ht|split; [|split; [|exact Hrest]]]];
      [constructor; [intros e'' Heq; discriminate|exact Hpre]
      |intros post'; cbn [app read_loop]; rewrite E0; try rewrite Hrl; exact (Hpost post')].
Qed.

Lemma read_loop_exit_witness :
  read_loop 2 3 [ReadErr EAGAIN; ReadData []; ReadErr EPERM; ReadErr EIO] (loop_start empty_fds)
    <> None /\
  forall st' r,
    read_loop 2 3 [ReadErr EAGAIN; ReadData []; ReadErr EPERM; ReadErr EIO] (loop_start empty_fds)
      = Some (st', r) -> r = MainOk.
Proof.
  split; [vm_compute; discriminate|].
  intros st' r Hrun. exact (proj1 (read_loop_exit _ _ _ _ _ _ Hrun)).
Defined.

(** Reads that return no bytes, or fail with EINTR or EAGAIN, leave no trace:
    the loop continues exactly as if they had not happened. *)
Theorem idle_reads_skipped (fuel : nat) (ffd : Z) (pre rest : list ReadResult) (st : LState) :
  Forall (fun rd => rd = ReadData [] \/ rd = ReadErr EINTR \/ rd = ReadErr EAGAIN) pre ->
  read_loop fuel ffd (pre ++ rest) st = read_loop fuel ffd rest st.
Proof.
  intros Hpre. induction Hpre as [|rd pre Hrd _ IH]; [reflexivity|].
  cbn [app]. destruct Hrd as [-> | [-> | ->]]; exact IH.
Qed.

Lemma idle_reads_skipped_witness :
  read_loop 1 3 [ReadData []; ReadErr EINTR; ReadErr EAGAIN; ReadErr EIO] init_lstate =
  read_loop 1 3 [ReadErr EIO] init_lstate.
Proof.
  apply (idle_reads_skipped 1 3 [ReadData []; ReadErr EINTR; ReadErr EAGAIN] [ReadErr EIO]).
  constructor; [left; reflexivity|].
  constructor; [right; left; reflexivity|].
  constructor; [right; right; reflexivity|].
  constructor.
Defined.

(** Whenever start-up reaches the event loop, the mask in use is one of the
    three the code builds, it always includes OPEN and CLOSE_WRITE, and the
    session descriptor has not been closed. *)
Theorem register_monitoring_mask (env : SetupEnv) (ffd mk : Z) :
  snd (register env ffd) = Monitoring mk ->
  (mk = mask_metadata_focused \/ mk = mask_fallback \/ mk = Z.lor mask_fallback FAN_ATTRIB) /\
  Z.land mk FAN_OPEN <> 0 /\ Z.land mk FAN_CLOSE_WRITE <> 0 /\
  (forall n, ~ In (SysClose n) (fst (register env ffd))).
Proof.
  unfold register.
  destruct (fanotify_mark env FAN_MARK_ADD mask_metadata_focused AT_FDCWD test_file_path);
    [|destruct (fanotify_mark env FAN_MARK_ADD mask_fallback AT_FDCWD test_file_path);
      [destruct (fanotify_mark env (Z.lor FAN_MARK_ADD FAN_MARK_ONLYDIR) FAN_ATTRIB AT_FDCWD "/tmp")|]];
    cbn [snd fst]; intros H; try discriminate; injection H as <-;
    (split; [auto|split; [vm_compute; discriminate|split; [vm_compute; discriminate|]]]);
    intros n Hin; cbn in Hin; intuition discriminate.
Qed.

Lemma register_monitoring_mask_witness :
  Z.land (Z.lor mask_fallback FAN_ATTRIB) FAN_CLOSE_WRITE <> 0.
Proof.
  exact (proj1 (proj2 (proj2
    (register_monitoring_mask (env_of (MarkErr EPERM) MarkOk MarkOk None) 3 _ eq_refl)))).
Defined.

(** Metadata (ATTRIB) monitoring is reported active exactly when the
    metadata-focused mark or the directory-level ATTRIB mark succeeded, and
    MODIFY is monitored exactly when the metadata-focused mark failed. *)
Theorem attrib_active_iff_mark_succeeded (env : SetupEnv) (ffd mk : Z) :
  snd (register env ffd) = Monitoring mk ->
  (Z.land mk FAN_ATTRIB <> 0 <->
     fanotify_mark env FAN_MARK_ADD mask_metadata_focused AT_FDCWD test_file_path = MarkOk \/
     fanotify_mark env (Z.lor FAN_MARK_ADD FAN_MARK_ONLYDIR) FAN_ATTRIB AT_FDCWD "/tmp" = MarkOk) /\
  (Z.land mk FAN_MODIFY <> 0 <->
     fanotify_mark env FAN_MARK_ADD mask_metadata_focused AT_FDCWD test_file_path <> MarkOk).
Proof.
  unfold register.
  destruct (fanotify_mark env FAN_MARK_ADD mask_metadata_focused AT_FDCWD test_file_path) eqn:E1;
    [|destruct (fanotify_mark env FAN_MARK_ADD mask_fallback AT_FDCWD test_file_path) eqn:E2;
      [destruct (fanotify_mark env (Z.lor FAN_MARK_ADD FAN_MARK_ONLYDIR) FAN_ATTRIB AT_FDCWD "/tmp") eqn:E3|]];
    cbn [snd]; intros H; try discriminate; injection H as <-;
    vm_compute; intuition congruence.
Qed.

Lemma attrib_active_iff_mark_succeeded_witness :
  Z.land mask_fallback FAN_ATTRIB <> 0 <->
    MarkErr EINVAL = MarkOk \/ MarkErr EINVAL = MarkOk.
Proof.
  exact (proj1 (attrib_active_iff_mark_succeeded
    (env_of (MarkErr EINVAL) MarkOk (MarkErr EINVAL) None) 3 _ eq_refl)).
Defined.

(** ** Helpers: the outcomes of start-up and of the event loop *)

Lemma read_loop_ok (fuel : nat) (ffd : Z) (reads : list ReadResult) (st st' : LState)
  (r : MainResult) :
  read_loop fuel ffd reads st = Some (st', r) -> r = MainOk.
Proof.
  revert st. induction reads as [|[e|data] reads IH]; intros st Hrun; cbn [read_loop] in Hrun;
    [discriminate| |].
  - destruct (Z.eqb e EINTR); [exact (IH _ Hrun)|].
    destruct (Z.eqb e EAGAIN); [exact (IH _ Hrun)|]. now injection Hrun as _ <-.
  - destruct (Nat.eqb (List.length data) 0); [exact (IH _ Hrun)|].
    destruct (record_loop fuel (fill_buffer (ls_buffer st) data) (List.length data) 0 (ls_proc st));
      [exact (IH _ Hrun)|discriminate].
Qed.

Lemma register_failed_closes (env : SetupEnv) (ffd e : Z) :
  snd (register env ffd) = SetupFailed e -> In (SysClose ffd) (fst (register env ffd)).
Proof.
  unfold register.
  destruct (fanotify_mark env FAN_MARK_ADD mask_metadata_focused AT_FDCWD test_file_path);
    [discriminate|].
  destruct (fanotify_mark env FAN_MARK_ADD mask_fallback AT_FDCWD test_file_path);
    [destruct (fanotify_mark env (Z.lor FAN_MARK_ADD FAN_MARK_ONLYDIR) FAN_ATTRIB AT_FDCWD "/tmp");
     discriminate|].
  intros _. cbn. auto.
Qed.

(** [main] returns an error only from start-up, before the event loop: the
    outcome does not depend on what the loop would read. After a successful
    [fanotify_init], the session descriptor has been closed before the error
    return exactly when the test file was created, i.e. a failure of
    [fs::write] returns without closing it. *)
Theorem main_error_only_from_startup (fuel : nat) (menv : MainEnv) (reads : list ReadResult)
  (calls : list Syscall) (ost : option LState) (e : Z) :
  main_run fuel menv reads = Some (calls, ost, MainErr e) ->
  ost = None /\
  (forall fuel' reads', main_run fuel' menv reads' = Some (calls, None, MainErr e)) /\
  (forall ffd, init_result menv = InitOk ffd ->
     (In (SysClose ffd) calls <-> write_error menv = None)).
Proof.
  unfold main_run. destruct (init_result menv) as [ffd|e0] eqn:Ei.
  - destruct (write_error menv) as [we|] eqn:Ew.
    + intros H. injection H as <- <- <-.
      split; [reflexivity|split; [reflexivity|]].
      intros ffd' _. split; [intros []|discriminate].
    + destruct (register (setup_env menv) ffd) as [cs res] eqn:Er.
      destruct res as [mk|e0].
      * destruct (read_loop fuel ffd reads (loop_start (start_fds menv))) as [[st r]|] eqn:Hl;
          intros H; [|discriminate].
        injection H as _ _ Hr. apply read_loop_ok in Hl. congruence.
      * intros H. injection H as <- <- <-.
        split; [reflexivity|split; [reflexivity|]].
        intros ffd' Hi. injection Hi as <-. split; [reflexivity|intros _].
        change cs with (fst (cs, SetupFailed e0)). rewrite <- Er.
        apply (register_failed_closes _ _ e0). now rewrite Er.
  - intros H. injection H as <- <- <-.
    split; [reflexivity|split; [reflexivity|]]. intros ffd Hi. discriminate.
Qed.

Lemma main_error_only_from_startup_witness :
  main_run 1 write_fails_menv [] = Some ([], None, MainErr EPERM) /\
  ~ In (SysClose 3) [].
Proof.
  assert (H : main_run 1 write_fails_menv [] = Some ([], None, MainErr EPERM)) by reflexivity.
  split; [exact H|].
  intros Hin. apply (proj2 (proj2 (main_error_only_from_startup _ _ _ _ _ _ H)) 3 eq_refl) in Hin.
  discriminate.
Defined.

(** Once the event loop is entered, [main] can only return [Ok(())]. *)
Theorem main_loop_returns_ok (fuel : nat) (menv : MainEnv) (reads : list ReadResult)
  (calls : list Syscall) (st : LState) (r : MainResult) :
  main_run fuel menv reads = Some (calls, Some st, r) -> r = MainOk.
Proof.
  unfold main_run. destruct (init_result menv) as [ffd|e0]; [|discriminate].
  destruct (write_error menv); [discriminate|].
  destruct (register (setup_env menv) ffd) as [cs [mk|e0]]; [|discriminate].
  destruct (read_loop fuel ffd reads (loop_start (start_fds menv))) as [[st' r']|] eqn:Hl;
    [|discriminate].
  intros H. injection H as _ _ <-. exact (read_loop_ok _ _ _ _ _ _ Hl).
Qed.

Lemma main_loop_returns_ok_witness :
  main_run 2 fallback_menv [ReadData (encode_metadata (rec_of 24 FAN_MODIFY 7 1)); ReadErr EIO]
    <> None /\
  forall calls st r,
    main_run 2 fallback_menv [ReadData (encode_metadata (rec_of 24 FAN_MODIFY 7 1)); ReadErr EIO]
      = Some (calls, Some st, r) -> r = MainOk.
Proof.
  split; [vm_compute; discriminate|].
  intros calls st r H. exact (main_loop_returns_ok _ _ _ _ _ _ H).
Defined.

(** The kinds reported for one record never repeat. *)
Theorem event_types_no_repeat (buf : list Z) (off : nat) (s : PState) :
  exists e, ps_events (decode_record buf off s) = ps_events s ++ [e] /\ NoDup (ev_types e).
Proof.
  destruct (decode_record_effects buf off s) as [e [He [_ [_ [Ht _]]]]].
  exists e. split; [exact He|]. rewrite Ht. apply event_types_of_nodup.
Qed.
